(** * The counter slice of the Employees client

    A shallow embedding of [client/src/features/counter/counterSlice.ts]:
    the slice state, its case reducers, the reducers of the asynchronous
    life cycle of [incrementAsync], the selector [selectCount] and the
    hand-written thunk [incrementIfOdd].

    Numbers.  The slice stores a JavaScript [number], a binary64 value.
    [counterReducer] is the reducer over the integers [Z]: it states which
    sum each case assigns.  [counterReducer64] is the same reducer with the
    sums computed as the program computes them, rounded to binary64; the
    two agree as long as the integers stay within [2^53] in magnitude
    ([counterReducer64_exact]), and every property that rests on a law of
    addition is stated of [counterReducer64].  The remainder operator [%]
    of JavaScript truncates towards zero and takes the sign of its left
    operand: this is [Z.rem], not [Z.modulo].

    Status.  At run time the [status] field holds a string; the
    TypeScript type ['idle' | 'loading' | 'failed'] is the predicate
    [isStatus] over strings. *)

From Stdlib Require Import ZArith List String Bool Lia Permutation.
Import ListNotations.

Local Open Scope string_scope.
Local Open Scope Z_scope.

(** ** Action types *)

Module CounterActionTypes.
Definition INCREMENT : string := "counter/increment".
Definition DECREMENT : string := "counter/decrement".
Definition INCREMENT_BY_AMOUNT : string := "counter/incrementByAmount".
Definition FETCH_COUNT : string := "counter/fetchCount".
End CounterActionTypes.

(** The actions the slice handles: the three generated by [createSlice]
    from the keys of [reducers], and the three life-cycle actions that
    [createAsyncThunk] generates for [incrementAsync]. *)
Inductive Action : Type :=
| increment
| decrement
| incrementByAmount (payload : Z)
| incrementAsync_pending
| incrementAsync_fulfilled (payload : Z)
| incrementAsync_rejected.

(** The [type] field of each action: slice name and reducer key for the
    slice's own actions, the thunk's type prefix and the life-cycle stage
    for the others. *)
Definition type (a : Action) : string :=
  match a with
  | increment => CounterActionTypes.INCREMENT
  | decrement => CounterActionTypes.DECREMENT
  | incrementByAmount _ => CounterActionTypes.INCREMENT_BY_AMOUNT
  | incrementAsync_pending => CounterActionTypes.FETCH_COUNT ++ "/pending"
  | incrementAsync_fulfilled _ => CounterActionTypes.FETCH_COUNT ++ "/fulfilled"
  | incrementAsync_rejected => CounterActionTypes.FETCH_COUNT ++ "/rejected"
  end.

Definition Action_eq_dec (a b : Action) : {a = b} + {a <> b}.
Proof. decide equality; apply Z.eq_dec. Defined.

(** ** The slice state *)

Record CounterState : Type := mkCounterState {
  value : Z;
  status : string
}.

(** The TypeScript type of [status]. *)
Definition isStatus (s : string) : bool :=
  String.eqb s "idle" || String.eqb s "loading" || String.eqb s "failed".

Definition initialState : CounterState :=
  {| value := 0; status := "idle" |}.

(** ** The slice reducer

    One case per entry of [reducers] and per [addCase] of
    [extraReducers]; each body is the assignment the source performs on
    the draft. *)
Definition counterReducer (state : CounterState) (action : Action)
  : CounterState :=
  match action with
  | increment =>
      {| value := value state + 1; status := status state |}
  | decrement =>
      {| value := value state - 1; status := status state |}
  | incrementByAmount payload =>
      {| value := value state + payload; status := status state |}
  | incrementAsync_pending =>
      {| value := value state; status := "loading" |}
  | incrementAsync_fulfilled payload =>
      {| value := value state + payload; status := "idle" |}
  | incrementAsync_rejected =>
      {| value := value state; status := "failed" |}
  end.

(** Reducing a sequence of actions, oldest first. *)
Definition reduceAll (actions : list Action) (state : CounterState)
  : CounterState :=
  fold_left counterReducer actions state.

(** The change each action makes to [value]. *)
Definition valueDelta (a : Action) : Z :=
  match a with
  | increment => 1
  | decrement => -1
  | incrementByAmount payload => payload
  | incrementAsync_fulfilled payload => payload
  | incrementAsync_pending | incrementAsync_rejected => 0
  end.

Definition sumDeltas (actions : list Action) : Z :=
  fold_right (fun a acc => valueDelta a + acc) 0 actions.

(** The actions of the [reducers] field, as opposed to the life-cycle
    actions of [extraReducers]. *)
Definition synchronous (a : Action) : bool :=
  match a with
  | increment | decrement | incrementByAmount _ => true
  | _ => false
  end.

(** The status a life-cycle reducer writes; the reducers of the
    synchronous actions write none. *)
Definition statusWritten (a : Action) : option string :=
  match a with
  | incrementAsync_pending => Some "loading"
  | incrementAsync_fulfilled _ => Some "idle"
  | incrementAsync_rejected => Some "failed"
  | increment | decrement | incrementByAmount _ => None
  end.

(** The action that takes back a synchronous action. *)
Definition inverse (a : Action) : Action :=
  match a with
  | increment => decrement
  | decrement => increment
  | incrementByAmount payload => incrementByAmount (- payload)
  | incrementAsync_pending | incrementAsync_fulfilled _
  | incrementAsync_rejected => a
  end.

(** The number of [incrementAsync] calls that are in flight after one
    more action: [pending] opens a call, [fulfilled] and [rejected] close
    one.  A closing action when no call is open cannot come from
    [createAsyncThunk]; the count is then undefined. *)
Definition inFlightStep (open : option nat) (a : Action) : option nat :=
  match open with
  | None => None
  | Some n =>
      match a with
      | incrementAsync_pending => Some (S n)
      | incrementAsync_fulfilled _ | incrementAsync_rejected =>
          match n with
          | O => None
          | S m => Some m
          end
      | increment | decrement | incrementByAmount _ => Some n
      end
  end.

(** The calls in flight after a sequence of actions, oldest first,
    starting with none. *)
Definition inFlight (actions : list Action) : option nat :=
  fold_left inFlightStep actions (Some O).

(** ** Numbers as the program computes them

    A JavaScript [number] is an IEEE 754 binary64 value.  The values the
    slice meets when it is fed integers are the integers a double can
    hold, the two infinities and NaN; the two zeros, which [===] does not
    tell apart, are both [Finite 0]. *)
Inductive Number : Type :=
| Finite (z : Z)
| PosInfinity
| NegInfinity
| NaN.

(** [2^53]: up to this magnitude every integer is a double. *)
Definition exactBound : Z := 9007199254740992.

(** [2^1024]: what rounds to this magnitude or above overflows. *)
Definition overflowBound : Z := 2 ^ 1024.

(** The magnitude of the double nearest to the non-negative integer [a]:
    the 53 leading bits are kept, the [k] bits below are rounded to
    nearest, a tie going to the even neighbour. *)
Definition roundMagnitude (a : Z) : Z :=
  let k := Z.log2 a - 52 in
  if k <=? 0 then a
  else
    let q := Z.shiftr a k in
    let r := Z.land a (Z.ones k) in
    let half := Z.shiftl 1 (k - 1) in
    let m :=
      if r <? half then q
      else if half <? r then q + 1
      else if Z.even q then q else q + 1 in
    Z.shiftl m k.

(** The double nearest to the integer [z]: what the sum of two doubles
    with exact sum [z] is, and what a literal [z] of the program denotes. *)
Definition round64 (z : Z) : Number :=
  let a := roundMagnitude (Z.abs z) in
  if overflowBound <=? a
  then (if z <? 0 then NegInfinity else PosInfinity)
  else Finite (Z.sgn z * a).

(** [x + y] on numbers. *)
Definition number_add (x y : Number) : Number :=
  match x, y with
  | NaN, _ | _, NaN => NaN
  | PosInfinity, NegInfinity | NegInfinity, PosInfinity => NaN
  | PosInfinity, _ | _, PosInfinity => PosInfinity
  | NegInfinity, _ | _, NegInfinity => NegInfinity
  | Finite a, Finite b => round64 (a + b)
  end.

Definition number_neg (x : Number) : Number :=
  match x with
  | Finite a => Finite (- a)
  | PosInfinity => NegInfinity
  | NegInfinity => PosInfinity
  | NaN => NaN
  end.

(** [x - y] on numbers. *)
Definition number_sub (x y : Number) : Number :=
  number_add x (number_neg y).

(** The slice state with [value] as the program holds it. *)
Record CounterState64 : Type := mkCounterState64 {
  value64 : Number;
  status64 : string
}.

Definition initialState64 : CounterState64 :=
  {| value64 := Finite 0; status64 := "idle" |}.

(** The slice reducer on numbers: the cases and the assignments of
    [counterReducer], with [+=] and [-=] computed in binary64.  An
    integer payload stands for the double that holds it. *)
Definition counterReducer64 (state : CounterState64) (action : Action)
  : CounterState64 :=
  match action with
  | increment =>
      {| value64 := number_add (value64 state) (Finite 1);
         status64 := status64 state |}
  | decrement =>
      {| value64 := number_sub (value64 state) (Finite 1);
         status64 := status64 state |}
  | incrementByAmount payload =>
      {| value64 := number_add (value64 state) (round64 payload);
         status64 := status64 state |}
  | incrementAsync_pending =>
      {| value64 := value64 state; status64 := "loading" |}
  | incrementAsync_fulfilled payload =>
      {| value64 := number_add (value64 state) (round64 payload);
         status64 := "idle" |}
  | incrementAsync_rejected =>
      {| value64 := value64 state; status64 := "failed" |}
  end.

Definition reduceAll64 (actions : list Action) (state : CounterState64)
  : CounterState64 :=
  fold_left counterReducer64 actions state.

(** A state over the integers, as the state over numbers that holds the
    same value. *)
Definition exactState (s : CounterState) : CounterState64 :=
  {| value64 := Finite (value s); status64 := status s |}.

Definition inExactRange (z : Z) : bool :=
  Z.abs z <=? exactBound.

(** Whether the integers a sequence of actions passes through from [v],
    and the amounts it adds, all lie within the exact range. *)
Fixpoint staysExact (actions : list Action) (v : Z) : bool :=
  inExactRange v &&
  match actions with
  | [] => true
  | a :: rest =>
      inExactRange (valueDelta a) && staysExact rest (v + valueDelta a)
  end.

(** The two actions of the inverse pair. *)
Definition incrementOrDecrement (a : Action) : Prop :=
  a = increment \/ a = decrement.

(** ** Promises and the remote fetcher *)

(** How a promise settles. *)
Inductive Settled (A : Type) : Type :=
| Resolved (a : A)
| Rejected.
Arguments Resolved {A} a.
Arguments Rejected {A}.

(** The body the fetcher resolves with: [{ data: number }]. *)
Record Response : Type := mkResponse { data : Z }.

(** Modelled from the spec: [fetchCount] of [counterAPI.ts] is not part
    of the sources at hand.  After its delay it resolves with
    [data = amount], or it rejects to simulate a transient failure;
    [fails] is the environment's choice between the two. *)
Definition fetchCount (fails : bool) (amount : Z) : Settled Response :=
  if fails then Rejected else Resolved {| data := amount |}.

(** The payload creator handed to [createAsyncThunk]: it awaits the
    fetcher and returns [response.data]; a rejection of the fetcher
    rejects the creator. *)
Definition payloadCreator (fetch : Z -> Settled Response) (amount : Z)
  : Settled Z :=
  match fetch amount with
  | Resolved response => Resolved (data response)
  | Rejected => Rejected
  end.

(** The life-cycle action dispatched once the payload creator settles. *)
Definition settledAction (outcome : Settled Z) : Action :=
  match outcome with
  | Resolved payload => incrementAsync_fulfilled payload
  | Rejected => incrementAsync_rejected
  end.

(** ** The store

    [RootState] and [AppThunk] come from [app/store], which is not part
    of the sources at hand.  The selector reads [state.counter], so the
    root state has a [counter] field reduced by this slice; whatever else
    the application keeps there is the parameter [Rest], with a reducer
    of its own. *)
Section Store.

Variable Rest : Type.
Variable restReducer : Rest -> Action -> Rest.

Record RootState : Type := mkRootState {
  counter : CounterState;
  rest : Rest
}.

Definition rootReducer (state : RootState) (action : Action) : RootState :=
  {| counter := counterReducer (counter state) action;
     rest := restReducer (rest state) action |}.

Definition initialRootState (rest0 : Rest) : RootState :=
  {| counter := initialState; rest := rest0 |}.

Definition selectCount (state : RootState) : Z :=
  value (counter state).

(** A thunk runs against the store: it may read the state and dispatch
    actions, and returns a result.  The store is threaded through. *)
Definition AppThunk (A : Type) : Type := RootState -> A * RootState.

Definition ret {A : Type} (a : A) : AppThunk A :=
  fun st => (a, st).

Definition bind {A B : Type} (m : AppThunk A) (k : A -> AppThunk B)
  : AppThunk B :=
  fun st => let (a, st') := m st in k a st'.

Definition getState : AppThunk RootState :=
  fun st => (st, st).

Definition dispatch (action : Action) : AppThunk unit :=
  fun st => (tt, rootReducer st action).

(** Reading the store through a selector: [selector(getState())]. *)
Definition select {A : Type} (selector : RootState -> A) : AppThunk A :=
  bind getState (fun st => ret (selector st)).

(** The state a thunk leaves behind. *)
Definition exec {A : Type} (m : AppThunk A) (st : RootState) : RootState :=
  snd (m st).

Local Notation "x <- m ;; k" := (bind m (fun x => k))
  (at level 61, m at next level, right associativity).
Local Notation "m ;;; k" := (bind m (fun _ => k))
  (at level 61, right associativity).

(** [incrementIfOdd]: the test is [currentValue % 2 === 1]. *)
Definition incrementIfOdd (amount : Z) : AppThunk unit :=
  st <- getState ;;
  let currentValue := selectCount st in
  if Z.rem currentValue 2 =? 1
  then dispatch (incrementByAmount amount)
  else ret tt.

(** [incrementAsync amount]: [pending] is dispatched at once; the
    payload creator then awaits the fetcher, and whatever the rest of
    the application does meanwhile is [during]; when the creator
    settles, [fulfilled] with its result or [rejected] is dispatched. *)
Definition incrementAsync_start : AppThunk unit :=
  dispatch incrementAsync_pending.

Definition incrementAsync_settle (outcome : Settled Z) : AppThunk unit :=
  dispatch (settledAction outcome).

Definition incrementAsync (fetch : Z -> Settled Response) (amount : Z)
  (during : AppThunk unit) : AppThunk unit :=
  incrementAsync_start ;;;
  during ;;;
  incrementAsync_settle (payloadCreator fetch amount).

(** The operations of the container. *)
Inductive Operation : Type :=
| op_dispatch (action : Action)
| op_incrementIfOdd (amount : Z).

Definition perform (op : Operation) : AppThunk unit :=
  match op with
  | op_dispatch action => dispatch action
  | op_incrementIfOdd amount => incrementIfOdd amount
  end.

Definition runOps (ops : list Operation) (st : RootState) : RootState :=
  fold_left (fun st op => exec (perform op) st) ops st.

End Store.

Arguments counter {Rest} _.
Arguments rest {Rest} _.
Arguments mkRootState {Rest} _ _.
Arguments rootReducer {Rest} restReducer state action.
Arguments initialRootState {Rest} rest0.
Arguments selectCount {Rest} state.
Arguments ret {Rest A} a _.
Arguments bind {Rest A B} m k _.
Arguments getState {Rest} _.
Arguments dispatch {Rest} restReducer action _.
Arguments select {Rest A} selector _.
Arguments exec {Rest A} m st.
Arguments incrementIfOdd {Rest} restReducer amount _.
Arguments incrementAsync_start {Rest} restReducer _.
Arguments incrementAsync_settle {Rest} restReducer outcome _.
Arguments incrementAsync {Rest} restReducer fetch amount during _.
Arguments perform {Rest} restReducer op _.
Arguments runOps {Rest} restReducer ops st.

(** The reducer of a store that holds nothing besides the counter slice. *)
Definition noRest (_ : unit) (_ : Action) : unit := tt.

(** * Properties of the slice reducer *)

Lemma reduceAll_cons (a : Action) (actions : list Action) (s : CounterState) :
  reduceAll (a :: actions) s = reduceAll actions (counterReducer s a).
Proof. reflexivity. Qed.

Lemma reduceAll_app (l1 l2 : list Action) (s : CounterState) :
  reduceAll (l1 ++ l2) s = reduceAll l2 (reduceAll l1 s).
Proof. unfold reduceAll. apply fold_left_app. Qed.

(** Every action moves [value] by its [valueDelta]. *)
Lemma counterReducer_value (s : CounterState) (a : Action) :
  value (counterReducer s a) = value s + valueDelta a.
Proof. destruct a; simpl; lia. Qed.

Lemma reduceAll_value (actions : list Action) :
  forall s, value (reduceAll actions s) = value s + sumDeltas actions.
Proof.
  induction actions as [|a actions IH]; intros s.
  - simpl. lia.
  - rewrite reduceAll_cons, IH, counterReducer_value. simpl. lia.
Qed.

Lemma sumDeltas_app (l1 l2 : list Action) :
  sumDeltas (l1 ++ l2) = sumDeltas l1 + sumDeltas l2.
Proof.
  induction l1 as [|a l1 IH]; simpl; [reflexivity|].
  fold (sumDeltas (l1 ++ l2)) (sumDeltas l1). lia.
Qed.

Lemma sumDeltas_repeat (a : Action) (n : nat) :
  sumDeltas (repeat a n) = Z.of_nat n * valueDelta a.
Proof.
  induction n as [|n IH].
  - reflexivity.
  - cbn [repeat sumDeltas fold_right]. fold (sumDeltas (repeat a n)).
    rewrite IH. lia.
Qed.

(** The order of the actions does not matter for [value]. *)
Lemma sumDeltas_Permutation (l1 l2 : list Action) :
  Permutation l1 l2 -> sumDeltas l1 = sumDeltas l2.
Proof.
  induction 1 as [|a l1 l2 _ IH|a b l|l1 l2 l3 _ IH12 _ IH23]; simpl.
  - reflexivity.
  - fold (sumDeltas l1) (sumDeltas l2). lia.
  - lia.
  - congruence.
Qed.

Lemma counterReducer_synchronous_status (s : CounterState) (a : Action) :
  synchronous a = true -> status (counterReducer s a) = status s.
Proof. destruct a; simpl; intros H; (reflexivity || discriminate H). Qed.

Lemma reduceAll_repeat_synchronous (a : Action) (n : nat) :
  synchronous a = true ->
  forall s, reduceAll (repeat a n) s =
            {| value := value s + Z.of_nat n * valueDelta a;
               status := status s |}.
Proof.
  intros Ha. induction n as [|n IH]; intros s.
  - destruct s as [v st]. simpl. f_equal. lia.
  - cbn [repeat]. rewrite reduceAll_cons, IH.
    rewrite counterReducer_value, counterReducer_synchronous_status by exact Ha.
    f_equal. lia.
Qed.


(** [isStatus] holds of the three strings of the TypeScript type and of
    no other. *)
Lemma isStatus_spec (s : string) :
  isStatus s = true ->
  s = "idle"%string \/ s = "loading"%string \/ s = "failed"%string.
Proof.
  unfold isStatus. intros H.
  apply orb_true_iff in H. destruct H as [H|H].
  - apply orb_true_iff in H. destruct H as [H|H].
    + left. apply String.eqb_eq, H.
    + right; left. apply String.eqb_eq, H.
  - right; right. apply String.eqb_eq, H.
Qed.

(** * Sequences of actions *)

Lemma sumDeltas_cons (a : Action) (actions : list Action) :
  sumDeltas (a :: actions) = valueDelta a + sumDeltas actions.
Proof. reflexivity. Qed.

(** A sequence of synchronous actions in closed form. *)
Lemma reduceAll_synchronous (actions : list Action) :
  forallb synchronous actions = true ->
  forall s, reduceAll actions s =
            {| value := value s + sumDeltas actions; status := status s |}.
Proof.
  induction actions as [|a actions IH]; intros Hsync s.
  - destruct s as [v st]. simpl. f_equal. lia.
  - simpl in Hsync. apply andb_true_iff in Hsync. destruct Hsync as [Ha Hl].
    rewrite reduceAll_cons, (IH Hl), sumDeltas_cons.
    rewrite counterReducer_value, counterReducer_synchronous_status by exact Ha.
    f_equal. lia.
Qed.

Lemma forallb_Permutation {A : Type} (f : A -> bool) (l1 l2 : list A) :
  Permutation l1 l2 -> forallb f l1 = forallb f l2.
Proof.
  induction 1 as [|a l1 l2 _ IH|a b l|l1 l2 l3 _ IH12 _ IH23]; simpl.
  - reflexivity.
  - rewrite IH. reflexivity.
  - destruct (f a), (f b); reflexivity.
  - congruence.
Qed.

Lemma reduceAll_synchronous_status (actions : list Action) (s : CounterState) :
  forallb synchronous actions = true ->
  status (reduceAll actions s) = status s.
Proof. intros H. rewrite reduceAll_synchronous by exact H. reflexivity. Qed.

Lemma counterReducer_statusWritten (s : CounterState) (a : Action) (x : string) :
  statusWritten a = Some x -> status (counterReducer s a) = x.
Proof. destruct a; simpl; intros H; inversion H; reflexivity. Qed.

(** X2: the status a sequence of actions leaves is the one written by
    its last life-cycle action, whatever came before it and whichever
    synchronous actions come after it; a sequence without life-cycle
    action leaves the status it found. *)
Theorem status_last_lifecycle_wins
  (before after : list Action) (a : Action) (x : string) (s : CounterState) :
  forallb synchronous after = true ->
  (statusWritten a = Some x ->
   status (reduceAll (before ++ a :: after) s) = x) /\
  status (reduceAll after s) = status s.
Proof.
  intros Hafter. split.
  - intros Ha.
    rewrite reduceAll_app, reduceAll_cons, reduceAll_synchronous_status
      by exact Hafter.
    apply counterReducer_statusWritten, Ha.
  - apply reduceAll_synchronous_status, Hafter.
Qed.

Lemma inverse_synchronous (a : Action) :
  synchronous a = true ->
  synchronous (inverse a) = true /\ valueDelta (inverse a) = - valueDelta a.
Proof. destruct a; simpl; intros H; (discriminate H || split; reflexivity || lia). Qed.

Lemma map_inverse_synchronous (actions : list Action) :
  forallb synchronous actions = true ->
  forallb synchronous (map inverse actions) = true /\
  sumDeltas (map inverse actions) = - sumDeltas actions.
Proof.
  induction actions as [|a actions IH]; intros H.
  - split; reflexivity.
  - simpl in H. apply andb_true_iff in H. destruct H as [Ha Hl].
    destruct (inverse_synchronous a Ha) as [Hs Hd].
    destruct (IH Hl) as [IHs IHd].
    cbn [map forallb]. rewrite !sumDeltas_cons, Hs, IHs, Hd, IHd.
    split; [reflexivity | lia].
Qed.

(** Over the integers, a sequence of synchronous actions is undone by
    the inverses of its actions, latest first. *)
Lemma reduceAll_undo (actions : list Action) (s : CounterState) :
  forallb synchronous actions = true ->
  reduceAll (actions ++ map inverse (rev actions)) s = s.
Proof.
  intros Hsync.
  assert (Hrev : forallb synchronous (rev actions) = true).
  { rewrite (forallb_Permutation _ _ _ (Permutation_sym (Permutation_rev actions))).
    exact Hsync. }
  destruct (map_inverse_synchronous _ Hrev) as [Hinv Hsum].
  rewrite reduceAll_app.
  rewrite (reduceAll_synchronous _ Hinv), (reduceAll_synchronous _ Hsync).
  rewrite Hsum.
  rewrite (sumDeltas_Permutation _ _ (Permutation_sym (Permutation_rev actions))).
  destruct s as [v st]. simpl. f_equal. lia.
Qed.

Lemma inFlight_app (l1 l2 : list Action) :
  inFlight (l1 ++ l2) = fold_left inFlightStep l2 (inFlight l1).
Proof. unfold inFlight. apply fold_left_app. Qed.

Lemma inFlightStep_None (actions : list Action) :
  fold_left inFlightStep actions None = None.
Proof. induction actions as [|a actions IH]; simpl; auto. Qed.

Lemma loading_in_flight_from (actions : list Action) :
  forall (s : CounterState) (n0 n : nat),
    (status s = "loading"%string -> (0 < n0)%nat) ->
    fold_left inFlightStep actions (Some n0) = Some n ->
    status (reduceAll actions s) = "loading"%string -> (0 < n)%nat.
Proof.
  induction actions as [|a actions IH]; intros s n0 n Hinv Hfold Hload.
  - simpl in *. inversion Hfold; subst. auto.
  - rewrite reduceAll_cons in Hload. cbn [fold_left] in Hfold.
    destruct a; cbn [inFlightStep] in Hfold.
    + eapply IH; [|exact Hfold|exact Hload]. simpl. exact Hinv.
    + eapply IH; [|exact Hfold|exact Hload]. simpl. exact Hinv.
    + eapply IH; [|exact Hfold|exact Hload]. simpl. exact Hinv.
    + eapply IH; [|exact Hfold|exact Hload]. intros _. apply Nat.lt_0_succ.
    + destruct n0 as [|m]; [rewrite inFlightStep_None in Hfold; discriminate|].
      eapply IH; [|exact Hfold|exact Hload]. simpl. discriminate.
    + destruct n0 as [|m]; [rewrite inFlightStep_None in Hfold; discriminate|].
      eapply IH; [|exact Hfold|exact Hload]. simpl. discriminate.
Qed.

(** X4: from the initial state, whenever [status] is loading some call
    of [incrementAsync] is in flight: its [pending] was reduced and the
    action that closes it was not yet. *)
Theorem loading_implies_in_flight (actions : list Action) (n : nat) :
  inFlight actions = Some n ->
  status (reduceAll actions initialState) = "loading"%string ->
  (0 < n)%nat.
Proof.
  intros Hfold Hload.
  apply (loading_in_flight_from actions initialState 0 n); try assumption.
  simpl. discriminate.
Qed.

(** X5: the converse fails, the slice keeps no count of the calls in
    flight: when two or more are, the first one that settles takes
    [status] away from loading although the others are still awaited. *)
Theorem overlapping_calls_not_tracked
  (actions : list Action) (n : nat) (outcome : Settled Z) (s : CounterState) :
  inFlight actions = Some (S (S n)) ->
  inFlight (actions ++ [settledAction outcome]) = Some (S n) /\
  status (reduceAll (actions ++ [settledAction outcome]) s) <> "loading"%string.
Proof.
  intros Hopen. split.
  - rewrite inFlight_app, Hopen. destruct outcome; reflexivity.
  - rewrite reduceAll_app. destruct outcome; simpl; discriminate.
Qed.

(** X6: two actions with the same [type] are reduced by the same case
    reducer: they are the same action up to the payload. *)
Theorem type_identifies_case (a b : Action) :
  type a = type b ->
  a = b \/
  (exists p q, a = incrementByAmount p /\ b = incrementByAmount q) \/
  (exists p q, a = incrementAsync_fulfilled p /\
               b = incrementAsync_fulfilled q).
Proof.
  destruct a, b; intros H; try (cbv in H; discriminate H);
    eauto 6.
Qed.

(** * The reducer in binary64 *)

Lemma inExactRange_spec (z : Z) :
  inExactRange z = true <-> Z.abs z <= exactBound.
Proof. unfold inExactRange. apply Z.leb_le. Qed.

(** Up to [2^53] rounding changes nothing. *)
Lemma roundMagnitude_exact (a : Z) :
  0 <= a <= exactBound -> roundMagnitude a = a.
Proof.
  intros [Hlo Hhi].
  destruct (Z.eq_dec a exactBound) as [->|Hne]; [reflexivity|].
  unfold roundMagnitude.
  assert (Hk : Z.log2 a - 52 <= 0).
  { destruct (Z.eq_dec a 0) as [->|Hnz]; [simpl; lia|].
    assert (Hlt : a < 2 ^ 53) by (change (2 ^ 53) with exactBound; lia).
    apply Z.log2_lt_pow2 in Hlt; lia. }
  apply Z.leb_le in Hk. rewrite Hk. reflexivity.
Qed.

Lemma round64_exact (z : Z) :
  Z.abs z <= exactBound -> round64 z = Finite z.
Proof.
  intros Hz. unfold round64.
  rewrite roundMagnitude_exact by (split; [apply Z.abs_nonneg | exact Hz]).
  assert (Hsmall : (overflowBound <=? Z.abs z) = false).
  { apply Z.leb_gt. apply Z.le_lt_trans with (m := exactBound); [exact Hz|].
    reflexivity. }
  rewrite Hsmall. f_equal. lia.
Qed.

(** Within the exact range the reducer on numbers does what the reducer
    on integers does. *)
Lemma counterReducer64_exact (s : CounterState) (a : Action) :
  Z.abs (valueDelta a) <= exactBound ->
  Z.abs (value s + valueDelta a) <= exactBound ->
  counterReducer64 (exactState s) a = exactState (counterReducer s a).
Proof.
  intros Hd Hsum. unfold exactState.
  destruct a; cbn [counterReducer64 counterReducer value status value64 status64
                   number_add number_sub number_neg valueDelta] in *.
  - rewrite round64_exact by exact Hsum. reflexivity.
  - rewrite round64_exact by exact Hsum. f_equal.
  - rewrite (round64_exact payload) by exact Hd. cbn [number_add].
    rewrite round64_exact by exact Hsum. reflexivity.
  - reflexivity.
  - rewrite (round64_exact payload) by exact Hd. cbn [number_add].
    rewrite round64_exact by exact Hsum. reflexivity.
  - reflexivity.
Qed.

Lemma staysExact_head (actions : list Action) (v : Z) :
  staysExact actions v = true -> Z.abs v <= exactBound.
Proof.
  destruct actions; simpl; intros H; apply andb_true_iff in H;
    apply inExactRange_spec, H.
Qed.

Lemma staysExact_cons (a : Action) (actions : list Action) (v : Z) :
  staysExact (a :: actions) v = true <->
  Z.abs v <= exactBound /\ Z.abs (valueDelta a) <= exactBound /\
  staysExact actions (v + valueDelta a) = true.
Proof.
  cbn [staysExact]. rewrite !andb_true_iff, !inExactRange_spec. tauto.
Qed.

Lemma reduceAll64_exact (actions : list Action) :
  forall s : CounterState,
    staysExact actions (value s) = true ->
    reduceAll64 actions (exactState s) = exactState (reduceAll actions s).
Proof.
  induction actions as [|a actions IH]; intros s Hstay.
  - reflexivity.
  - apply staysExact_cons in Hstay. destruct Hstay as (_ & Hd & Hrest).
    assert (Hnext : Z.abs (value s + valueDelta a) <= exactBound)
      by (apply (staysExact_head _ _ Hrest)).
    unfold reduceAll64. cbn [fold_left]. fold (reduceAll64 actions).
    rewrite counterReducer64_exact by assumption.
    rewrite IH by (rewrite counterReducer_value; exact Hrest).
    reflexivity.
Qed.

Lemma staysExact_app (l1 l2 : list Action) :
  forall v : Z,
    staysExact l1 v = true ->
    staysExact l2 (v + sumDeltas l1) = true ->
    staysExact (l1 ++ l2) v = true.
Proof.
  induction l1 as [|a l1 IH]; intros v H1 H2.
  - simpl in H2. rewrite Z.add_0_r in H2. exact H2.
  - rewrite <- app_comm_cons. apply staysExact_cons.
    apply staysExact_cons in H1. destruct H1 as (Hv & Hd & Hrest).
    repeat split; try assumption.
    apply IH; [exact Hrest|].
    rewrite sumDeltas_cons, Z.add_assoc in H2. exact H2.
Qed.

Lemma staysExact_repeat (a : Action) (n : nat) :
  valueDelta a = 1 \/ valueDelta a = -1 ->
  forall v : Z,
    Z.abs v <= exactBound ->
    Z.abs (v + Z.of_nat n * valueDelta a) <= exactBound ->
    staysExact (repeat a n) v = true.
Proof.
  intros Hd. induction n as [|n IH]; intros v Hv Hend.
  - simpl. rewrite andb_true_r. apply inExactRange_spec, Hv.
  - cbn [repeat]. apply staysExact_cons.
    assert (Hbound : 0 < exactBound) by reflexivity.
    split; [exact Hv|]. split; [destruct Hd as [-> | ->]; simpl; lia|].
    apply IH; destruct Hd as [Hd | Hd]; rewrite Hd in *; lia.
Qed.

(** C2: as long as the value [v], the amount [n] and [v + n] lie within
    the exact range of binary64, [incrementByAmount n] yields the value
    that [n] successive [increment]s yield when [n] is non-negative, and
    the value that [|n|] successive [decrement]s yield when [n] is
    negative. *)
Theorem incrementByAmount_as_repeated_steps (s : CounterState) (n : Z) :
  Z.abs (value s) <= exactBound ->
  Z.abs n <= exactBound ->
  Z.abs (value s + n) <= exactBound ->
  (0 <= n ->
   value64 (counterReducer64 (exactState s) (incrementByAmount n)) =
   value64 (reduceAll64 (repeat increment (Z.to_nat n)) (exactState s))) /\
  (n < 0 ->
   value64 (counterReducer64 (exactState s) (incrementByAmount n)) =
   value64 (reduceAll64 (repeat decrement (Z.abs_nat n)) (exactState s))).
Proof.
  intros Hv Hn Hsum.
  rewrite counterReducer64_exact by assumption.
  split; intros Hsign.
  - rewrite reduceAll64_exact.
    + rewrite reduceAll_repeat_synchronous by reflexivity. simpl. f_equal. lia.
    + apply staysExact_repeat; [left; reflexivity | exact Hv |].
      simpl. rewrite Z2Nat.id by exact Hsign. rewrite Z.mul_1_r. exact Hsum.
  - rewrite reduceAll64_exact.
    + rewrite reduceAll_repeat_synchronous by reflexivity. simpl. f_equal. lia.
    + apply staysExact_repeat; [right; reflexivity | exact Hv |].
      simpl. rewrite Zabs2Nat.id_abs.
      replace (value s + Z.abs n * -1) with (value s + n) by lia. exact Hsum.
Qed.

(** C2, where it fails: at [2^53] one [incrementByAmount 2] moves the
    value to [2^53 + 2], while each of two [increment]s is lost in the
    rounding. *)
Lemma incrementByAmount_differs_beyond_exact_range :
  0 <= 2 /\
  value64 (counterReducer64
             (exactState {| value := exactBound; status := "idle" |})
             (incrementByAmount 2)) <>
  value64 (reduceAll64 (repeat increment (Z.to_nat 2))
             (exactState {| value := exactBound; status := "idle" |})).
Proof. split; [lia|]. vm_compute. discriminate. Qed.

Lemma staysExact_increments_decrements (actions : list Action) :
  Forall incrementOrDecrement actions ->
  forall v : Z,
    - exactBound <= v - Z.of_nat (count_occ Action_eq_dec actions decrement) ->
    v + Z.of_nat (count_occ Action_eq_dec actions increment) <= exactBound ->
    staysExact actions v = true.
Proof.
  induction 1 as [|a actions Ha _ IH]; intros v Hlo Hhi.
  - cbn [count_occ] in Hlo, Hhi. change (Z.of_nat 0) with 0 in Hlo, Hhi.
    cbn [staysExact]. rewrite andb_true_r. apply inExactRange_spec. lia.
  - assert (Hbound : 0 < exactBound) by reflexivity.
    apply staysExact_cons. destruct Ha as [-> | ->].
    + rewrite count_occ_cons_eq in Hhi by reflexivity.
      rewrite count_occ_cons_neq in Hlo by discriminate.
      cbn [valueDelta]. repeat split; try lia. apply IH; lia.
    + rewrite count_occ_cons_neq in Hhi by discriminate.
      rewrite count_occ_cons_eq in Hlo by reflexivity.
      cbn [valueDelta]. repeat split; try lia. apply IH; lia.
Qed.

Lemma increments_decrements_counts (n : nat) :
  Forall incrementOrDecrement (repeat increment n ++ repeat decrement n) /\
  count_occ Action_eq_dec (repeat increment n ++ repeat decrement n) increment = n /\
  count_occ Action_eq_dec (repeat increment n ++ repeat decrement n) decrement = n.
Proof.
  split; [|split].
  - apply Forall_app. split; apply Forall_forall; intros a Ha;
      apply repeat_spec in Ha; subst; [left | right]; reflexivity.
  - rewrite count_occ_app, count_occ_repeat_eq by reflexivity.
    rewrite count_occ_repeat_neq by discriminate. lia.
  - rewrite count_occ_app, count_occ_repeat_neq by discriminate.
    rewrite count_occ_repeat_eq by reflexivity. lia.
Qed.

(** C6: when the value [v] is an integer and [|v| + n] does not exceed
    the exact range of binary64, [n] increments and [n] decrements,
    applied in any order, bring [value] back to [v]; in particular [n]
    increments followed by [n] decrements do. *)
Theorem increment_decrement_cancel (s : CounterState) (n : nat) :
  Z.abs (value s) + Z.of_nat n <= exactBound ->
  value64 (reduceAll64 (repeat increment n ++ repeat decrement n)
             (exactState s)) = Finite (value s) /\
  forall actions : list Action,
    Permutation actions (repeat increment n ++ repeat decrement n) ->
    value64 (reduceAll64 actions (exactState s)) = Finite (value s).
Proof.
  intros Hrange.
  assert (Hall : forall actions : list Action,
             Permutation actions (repeat increment n ++ repeat decrement n) ->
             value64 (reduceAll64 actions (exactState s)) = Finite (value s)).
  { intros actions Hperm.
    destruct (increments_decrements_counts n) as (Hshape & Hinc & Hdec).
    rewrite reduceAll64_exact.
    - cbn [exactState value64]. f_equal.
      rewrite reduceAll_value, (sumDeltas_Permutation _ _ Hperm).
      rewrite sumDeltas_app, !sumDeltas_repeat. simpl. lia.
    - apply staysExact_increments_decrements.
      + apply (Permutation_Forall (Permutation_sym Hperm)), Hshape.
      + rewrite (Permutation_count_occ Action_eq_dec) in Hperm.
        rewrite Hperm, Hdec. lia.
      + rewrite (Permutation_count_occ Action_eq_dec) in Hperm.
        rewrite Hperm, Hinc. lia. }
  split; [apply Hall, Permutation_refl | exact Hall].
Qed.

(** C6, where it fails: at [2^53] the [increment] is lost in the
    rounding and the [decrement] is not, so that one of each ends one
    below the start. *)
Lemma increment_decrement_drift_beyond_exact_range :
  value64 (reduceAll64 (repeat increment 1 ++ repeat decrement 1)
             (exactState {| value := exactBound; status := "idle" |})) <>
  value64 (exactState {| value := exactBound; status := "idle" |}).
Proof. vm_compute. discriminate. Qed.

(** X1: as long as both orders keep the value within the exact range
    of binary64, the value a sequence of actions leaves does not depend on
    the order in which the actions are reduced, whatever the actions are;
    a sequence of synchronous actions then leaves the same whole state. *)
Theorem value_order_independent (l1 l2 : list Action) (s : CounterState) :
  Permutation l1 l2 ->
  staysExact l1 (value s) = true ->
  staysExact l2 (value s) = true ->
  value64 (reduceAll64 l1 (exactState s)) =
  value64 (reduceAll64 l2 (exactState s)) /\
  (forallb synchronous l1 = true ->
   reduceAll64 l1 (exactState s) = reduceAll64 l2 (exactState s)).
Proof.
  intros Hperm H1 H2. rewrite !reduceAll64_exact by assumption. split.
  - cbn [exactState value64].
    rewrite !reduceAll_value, (sumDeltas_Permutation _ _ Hperm). reflexivity.
  - intros Hsync.
    assert (Hsync2 : forallb synchronous l2 = true)
      by (rewrite <- (forallb_Permutation _ _ _ Hperm); exact Hsync).
    rewrite !reduceAll_synchronous by assumption.
    rewrite (sumDeltas_Permutation _ _ Hperm). reflexivity.
Qed.

Lemma staysExact_undo (actions : list Action) :
  forallb synchronous actions = true ->
  forall v : Z,
    staysExact actions v = true ->
    staysExact (map inverse (rev actions)) (v + sumDeltas actions) = true.
Proof.
  induction actions as [|a actions IH]; intros Hsync v Hstay.
  - simpl. simpl in Hstay. rewrite Z.add_0_r. exact Hstay.
  - cbn [forallb] in Hsync. apply andb_true_iff in Hsync.
    destruct Hsync as [Ha Hl].
    apply staysExact_cons in Hstay. destruct Hstay as (Hv & Hd & Hrest).
    assert (Hrev : forallb synchronous (rev actions) = true).
    { rewrite (forallb_Permutation _ _ _
                 (Permutation_sym (Permutation_rev actions))). exact Hl. }
    destruct (map_inverse_synchronous _ Hrev) as [_ Hsum].
    rewrite (sumDeltas_Permutation _ _
               (Permutation_sym (Permutation_rev actions))) in Hsum.
    destruct (inverse_synchronous a Ha) as [_ Hinv].
    cbn [rev]. rewrite map_app, sumDeltas_cons, Z.add_assoc.
    apply staysExact_app; [apply IH; assumption|].
    rewrite Hsum. cbn [map]. apply staysExact_cons.
    apply staysExact_head in Hrest.
    split; [|split].
    + lia.
    + rewrite Hinv, Z.abs_opp. exact Hd.
    + simpl. rewrite andb_true_r. apply inExactRange_spec. lia.
Qed.

(** X3: a sequence of synchronous actions that keeps the value within
    the exact range of binary64 is undone by the inverses of its actions,
    replayed latest first: the state is back to what it was, [value] and
    [status] alike. *)
Theorem synchronous_actions_undone (actions : list Action) (s : CounterState) :
  forallb synchronous actions = true ->
  staysExact actions (value s) = true ->
  reduceAll64 (actions ++ map inverse (rev actions)) (exactState s) =
  exactState s.
Proof.
  intros Hsync Hstay.
  rewrite reduceAll64_exact.
  - rewrite reduceAll_undo by exact Hsync. reflexivity.
  - apply staysExact_app; [exact Hstay|].
    apply staysExact_undo; assumption.
Qed.

(** * Properties of the store and of the thunks *)

(** JavaScript's [v % 2 === 1] holds exactly for the positive odd [v]:
    the remainder of a negative odd number is [-1]. *)
Lemma rem2_is_1 (v : Z) :
  (Z.rem v 2 =? 1) = Z.odd v && (0 <? v).
Proof.
  rewrite <- Z.negb_even.
  destruct (Z.even v) eqn:He; simpl.
  - apply Z.even_spec in He. destruct He as [k ->].
    rewrite Z.mul_comm, Z.rem_mul by lia. reflexivity.
  - assert (Ho : Z.odd v = true) by (rewrite <- Z.negb_even, He; reflexivity).
    apply Z.odd_spec in Ho. destruct Ho as [k ->].
    destruct (Z.ltb_spec 0 (2 * k + 1)) as [Hpos|Hneg].
    + apply Z.eqb_eq.
      rewrite Z.add_comm, Z.mul_comm, Z.rem_add by lia. reflexivity.
    + apply Z.eqb_neq. intros Hrem.
      assert (Hsign := Z.rem_nonpos (2 * k + 1) 2 ltac:(lia) ltac:(lia)).
      lia.
Qed.

Section StoreProperties.

Context {Rest : Type} (restReducer : Rest -> Action -> Rest).

#[local] Abbreviation RootState := (RootState Rest).
#[local] Abbreviation AppThunk := (AppThunk Rest).
#[local] Abbreviation dispatch := (dispatch restReducer).
#[local] Abbreviation incrementIfOdd := (incrementIfOdd restReducer).
#[local] Abbreviation incrementAsync := (incrementAsync restReducer).
#[local] Abbreviation incrementAsync_start := (incrementAsync_start restReducer).
#[local] Abbreviation incrementAsync_settle := (incrementAsync_settle restReducer).
#[local] Abbreviation perform := (perform restReducer).
#[local] Abbreviation runOps := (runOps restReducer).

Lemma exec_bind {A B : Type} (m : AppThunk A) (k : A -> AppThunk B)
  (st : RootState) :
  exec (bind m k) st = exec (k (fst (m st))) (exec m st).
Proof. unfold exec, bind. destruct (m st); reflexivity. Qed.

Lemma exec_ret {A : Type} (a : A) (st : RootState) :
  exec (ret a) st = st.
Proof. reflexivity. Qed.

Lemma exec_dispatch (a : Action) (st : RootState) :
  counter (exec (dispatch a) st) = counterReducer (counter st) a.
Proof. reflexivity. Qed.

(** What [incrementIfOdd] does, by the sign and parity of the value it
    reads. *)
Lemma incrementIfOdd_unfold (amount : Z) (st : RootState) :
  incrementIfOdd amount st =
  if Z.odd (selectCount st) && (0 <? selectCount st)
  then dispatch (incrementByAmount amount) st
  else (tt, st).
Proof.
  unfold incrementIfOdd, bind, getState. cbv zeta.
  rewrite rem2_is_1.
  destruct (Z.odd (selectCount st) && (0 <? selectCount st)); reflexivity.
Qed.

Lemma incrementIfOdd_positive_odd (amount : Z) (st : RootState) :
  0 < selectCount st -> Z.odd (selectCount st) = true ->
  incrementIfOdd amount st = dispatch (incrementByAmount amount) st.
Proof.
  intros Hpos Hodd. rewrite incrementIfOdd_unfold, Hodd.
  apply Z.ltb_lt in Hpos. rewrite Hpos. reflexivity.
Qed.

Lemma incrementIfOdd_even (amount : Z) (st : RootState) :
  Z.even (selectCount st) = true ->
  incrementIfOdd amount st = (tt, st).
Proof.
  intros Heven. rewrite incrementIfOdd_unfold, <- Z.negb_even, Heven.
  reflexivity.
Qed.

Lemma incrementIfOdd_negative (amount : Z) (st : RootState) :
  selectCount st < 0 ->
  incrementIfOdd amount st = (tt, st).
Proof.
  intros Hneg. rewrite incrementIfOdd_unfold.
  destruct (Z.ltb_spec 0 (selectCount st)); [lia|].
  rewrite andb_false_r. reflexivity.
Qed.

Lemma exec_incrementIfOdd_status (amount : Z) (st : RootState) :
  status (counter (exec (incrementIfOdd amount) st)) = status (counter st).
Proof.
  unfold exec. rewrite incrementIfOdd_unfold.
  destruct (Z.odd (selectCount st) && (0 <? selectCount st)); reflexivity.
Qed.

Lemma incrementIfOdd_unfold_exec (amount : Z) (st : RootState) :
  exec (incrementIfOdd amount) st =
  if Z.odd (selectCount st) && (0 <? selectCount st)
  then exec (dispatch (incrementByAmount amount)) st
  else st.
Proof.
  unfold exec. rewrite incrementIfOdd_unfold.
  destruct (Z.odd (selectCount st) && (0 <? selectCount st)); reflexivity.
Qed.

(** C1: at a negative odd value the thunk does not dispatch.  One
    [decrement] from the initial state gives [-1], which is odd;
    [incrementIfOdd 10] then leaves the store as it is, instead of moving
    the value to [-1 + 10]. *)
Theorem incrementIfOdd_skips_negative_odd (rest0 : Rest) :
  let st := exec (dispatch decrement) (initialRootState rest0) in
  selectCount st = -1 /\
  Z.odd (selectCount st) = true /\
  exec (incrementIfOdd 10) st = st /\
  selectCount (exec (incrementIfOdd 10) st) <> selectCount st + 10.
Proof.
  intros st.
  assert (Hnoop : exec (incrementIfOdd 10) st = st).
  { unfold exec. rewrite incrementIfOdd_negative by reflexivity. reflexivity. }
  split; [reflexivity|]. split; [reflexivity|]. split; [exact Hnoop|].
  rewrite Hnoop. simpl. discriminate.
Qed.

(** C3: when the fetch of [incrementAsync] is rejected, the state the
    thunk leaves has [status] failed, and its [value] is the one the store
    held at the moment of the rejection, whatever was dispatched while the
    fetch was in flight. *)
Theorem incrementAsync_rejected_keeps_value
  (fetch : Z -> Settled Response) (amount : Z) (during : AppThunk unit)
  (st : RootState) :
  fetch amount = Rejected ->
  let before := exec (bind incrementAsync_start (fun _ => during)) st in
  let after := exec (incrementAsync fetch amount during) st in
  status (counter after) = "failed"%string /\
  value (counter after) = value (counter before).
Proof.
  intros Hfetch. cbv zeta.
  unfold incrementAsync, payloadCreator. rewrite Hfetch.
  rewrite !exec_bind. split; reflexivity.
Qed.

(** Each operation keeps [status] inside the three admissible strings. *)
Lemma counterReducer_isStatus (s : CounterState) (a : Action) :
  isStatus (status s) = true -> isStatus (status (counterReducer s a)) = true.
Proof. destruct a; simpl; intros H; (exact H || reflexivity). Qed.

Lemma perform_isStatus (op : Operation) (st : RootState) :
  isStatus (status (counter st)) = true ->
  isStatus (status (counter (exec (perform op) st))) = true.
Proof.
  intros H. destruct op as [a|amount]; unfold perform.
  - rewrite exec_dispatch. apply counterReducer_isStatus, H.
  - rewrite exec_incrementIfOdd_status. exact H.
Qed.

Lemma runOps_isStatus (ops : list Operation) :
  forall st : RootState,
    isStatus (status (counter st)) = true ->
    isStatus (status (counter (runOps ops st))) = true.
Proof.
  induction ops as [|op ops IH]; intros st H.
  - exact H.
  - simpl. apply IH, perform_isStatus, H.
Qed.

(** C5: whatever sequence of operations is run from the initial state,
    [status] is idle, loading or failed. *)
Theorem status_always_valid (ops : list Operation) (rest0 : Rest) :
  let s := status (counter (runOps ops (initialRootState rest0))) in
  s = "idle"%string \/ s = "loading"%string \/ s = "failed"%string.
Proof.
  cbv zeta. apply isStatus_spec, runOps_isStatus. reflexivity.
Qed.

(** C7: the initial state has [value] 0 and [status] idle, and it is
    what the store starts with. *)
Theorem initialState_value_status (rest0 : Rest) :
  value initialState = 0 /\
  status initialState = "idle"%string /\
  counter (initialRootState rest0) = initialState.
Proof. repeat split. Qed.

(** C8: [selectCount] returns the [value] field of the counter slice;
    reading through it leaves the store untouched, and equal states give
    equal results. *)
Theorem selectCount_pure (st : RootState) :
  selectCount st = value (counter st) /\
  select selectCount st = (value (counter st), st) /\
  forall st' : RootState, st = st' -> selectCount st = selectCount st'.
Proof.
  repeat split. intros st' ->. reflexivity.
Qed.


(** C10: [increment], [decrement] and [incrementByAmount n] leave
    [status] as it was, and so does [incrementIfOdd] whether or not it
    dispatches. *)
Theorem synchronous_operations_keep_status
  (s : CounterState) (n : Z) (st : RootState) :
  status (counterReducer s increment) = status s /\
  status (counterReducer s decrement) = status s /\
  status (counterReducer s (incrementByAmount n)) = status s /\
  status (counter (exec (incrementIfOdd n) st)) = status (counter st).
Proof.
  repeat split. apply exec_incrementIfOdd_status.
Qed.

(** X7: [incrementIfOdd amount] dispatches [incrementByAmount amount]
    exactly when the value it reads is odd and positive; at every other
    value, the negative odd ones included, it leaves the store as it
    is. *)
Theorem incrementIfOdd_exact (amount : Z) (st : RootState) :
  exec (incrementIfOdd amount) st =
  if Z.odd (selectCount st) && (0 <? selectCount st)
  then exec (dispatch (incrementByAmount amount)) st
  else st.
Proof.
  unfold exec. rewrite incrementIfOdd_unfold.
  destruct (Z.odd (selectCount st) && (0 <? selectCount st)) eqn:Htest.
  - reflexivity.
  - reflexivity.
Qed.

Lemma exec_incrementIfOdd_nonpositive (amount : Z) (st : RootState) :
  selectCount st <= 0 -> exec (incrementIfOdd amount) st = st.
Proof.
  intros Hle. unfold exec. rewrite incrementIfOdd_unfold.
  destruct (Z.ltb_spec 0 (selectCount st)); [lia|].
  rewrite andb_false_r. reflexivity.
Qed.

(** X8: once the value is zero or negative, no sequence of
    [incrementIfOdd] calls moves the store, whatever the amounts. *)
Theorem incrementIfOdd_stuck_at_nonpositive
  (amounts : list Z) (st : RootState) :
  selectCount st <= 0 ->
  runOps (map op_incrementIfOdd amounts) st = st.
Proof.
  intros Hle. induction amounts as [|amount amounts IH].
  - reflexivity.
  - cbn [map]. unfold runOps. cbn [fold_left]. fold (runOps (map op_incrementIfOdd amounts)).
    unfold perform. rewrite exec_incrementIfOdd_nonpositive by exact Hle.
    exact IH.
Qed.

(** X9: with an odd amount a second [incrementIfOdd] does nothing: the
    first one either skips, and so does the second, or leaves an even
    value. *)
Theorem incrementIfOdd_odd_amount_idempotent (amount : Z) (st : RootState) :
  Z.odd amount = true ->
  exec (incrementIfOdd amount) (exec (incrementIfOdd amount) st) =
  exec (incrementIfOdd amount) st.
Proof.
  intros Hodd.
  destruct (Z.odd (selectCount st) && (0 <? selectCount st)) eqn:Htest.
  - assert (Hfirst : exec (incrementIfOdd amount) st =
                     exec (dispatch (incrementByAmount amount)) st).
    { rewrite incrementIfOdd_unfold_exec, Htest. reflexivity. }
    rewrite Hfirst, incrementIfOdd_unfold_exec.
    apply andb_true_iff in Htest. destruct Htest as [Hv _].
    assert (Hsum : Z.odd (selectCount
                            (exec (dispatch (incrementByAmount amount)) st))
                   = false).
    { change (selectCount (exec (dispatch (incrementByAmount amount)) st))
        with (selectCount st + amount).
      rewrite Z.odd_add, Hv, Hodd. reflexivity. }
    rewrite Hsum. reflexivity.
  - assert (Hfirst : exec (incrementIfOdd amount) st = st).
    { rewrite incrementIfOdd_unfold_exec, Htest. reflexivity. }
    rewrite Hfirst. exact Hfirst.
Qed.


End StoreProperties.

(** * Instances at a store that holds the counter slice alone *)

Lemma incrementAsync_rejected_keeps_value_witness :
  fetchCount true 7 = Rejected /\
  let before :=
    exec (bind (incrementAsync_start noRest)
               (fun _ => dispatch noRest increment))
         (initialRootState tt) in
  let after :=
    exec (incrementAsync noRest (fetchCount true) 7 (dispatch noRest increment))
         (initialRootState tt) in
  status (counter after) = "failed"%string /\
  value (counter after) = value (counter before).
Proof.
  split; [reflexivity|].
  apply (incrementAsync_rejected_keeps_value noRest (fetchCount true) 7
           (dispatch noRest increment) (initialRootState tt)).
  reflexivity.
Defined.

Lemma selectCount_pure_witness :
  initialRootState tt = initialRootState tt /\
  selectCount (initialRootState tt) = selectCount (initialRootState tt).
Proof.
  split; [reflexivity|].
  apply (proj2 (proj2 (selectCount_pure (initialRootState tt)))).
  reflexivity.
Defined.


Lemma status_last_lifecycle_wins_witness :
  forallb synchronous [decrement] = true /\
  statusWritten incrementAsync_rejected = Some "failed"%string /\
  status (reduceAll ([incrementAsync_pending] ++
                     incrementAsync_rejected :: [decrement]) initialState)
  = "failed"%string.
Proof.
  split; [reflexivity|]. split; [reflexivity|].
  apply (proj1 (status_last_lifecycle_wins [incrementAsync_pending] [decrement]
                  incrementAsync_rejected "failed" initialState eq_refl)).
  reflexivity.
Defined.

Lemma loading_implies_in_flight_witness :
  inFlight [incrementAsync_pending; increment] = Some 1%nat /\
  status (reduceAll [incrementAsync_pending; increment] initialState)
  = "loading"%string /\
  (0 < 1)%nat.
Proof.
  split; [reflexivity|]. split; [reflexivity|].
  apply (loading_implies_in_flight [incrementAsync_pending; increment] 1);
    reflexivity.
Defined.

Lemma overlapping_calls_not_tracked_witness :
  inFlight [incrementAsync_pending; incrementAsync_pending] = Some 2%nat /\
  inFlight ([incrementAsync_pending; incrementAsync_pending] ++
            [settledAction (Resolved 3)]) = Some 1%nat /\
  status (reduceAll ([incrementAsync_pending; incrementAsync_pending] ++
                     [settledAction (Resolved 3)]) initialState)
  <> "loading"%string.
Proof.
  split; [reflexivity|].
  apply (overlapping_calls_not_tracked
           [incrementAsync_pending; incrementAsync_pending] 0 (Resolved 3)
           initialState).
  reflexivity.
Defined.

Lemma type_identifies_case_witness :
  type (incrementByAmount 1) = type (incrementByAmount 2) /\
  (incrementByAmount 1 = incrementByAmount 2 \/
   (exists p q, incrementByAmount 1 = incrementByAmount p /\
                incrementByAmount 2 = incrementByAmount q) \/
   (exists p q, incrementByAmount 1 = incrementAsync_fulfilled p /\
                incrementByAmount 2 = incrementAsync_fulfilled q)).
Proof.
  split; [reflexivity|].
  apply (type_identifies_case (incrementByAmount 1) (incrementByAmount 2)).
  reflexivity.
Defined.

Lemma incrementIfOdd_stuck_at_nonpositive_witness :
  selectCount (mkRootState {| value := -3; status := "idle" |} tt) <= 0 /\
  runOps noRest (map op_incrementIfOdd [1; 2; 3])
         (mkRootState {| value := -3; status := "idle" |} tt)
  = mkRootState {| value := -3; status := "idle" |} tt.
Proof.
  split; [unfold selectCount; simpl; lia|].
  apply (incrementIfOdd_stuck_at_nonpositive noRest [1; 2; 3]).
  unfold selectCount. simpl. lia.
Defined.

Lemma incrementIfOdd_odd_amount_idempotent_witness :
  Z.odd 3 = true /\
  exec (incrementIfOdd noRest 3)
       (exec (incrementIfOdd noRest 3)
             (mkRootState {| value := 5; status := "idle" |} tt))
  = exec (incrementIfOdd noRest 3)
         (mkRootState {| value := 5; status := "idle" |} tt).
Proof.
  split; [reflexivity|].
  apply (incrementIfOdd_odd_amount_idempotent noRest 3). reflexivity.
Defined.


Lemma incrementByAmount_as_repeated_steps_witness :
  (Z.abs (value initialState) <= exactBound /\
   Z.abs 5 <= exactBound /\
   Z.abs (value initialState + 5) <= exactBound /\
   0 <= 5 /\
   value64 (counterReducer64 (exactState initialState) (incrementByAmount 5)) =
   value64 (reduceAll64 (repeat increment (Z.to_nat 5))
              (exactState initialState))) /\
  (Z.abs (value initialState) <= exactBound /\
   Z.abs (-3) <= exactBound /\
   Z.abs (value initialState + -3) <= exactBound /\
   -3 < 0 /\
   value64 (counterReducer64 (exactState initialState)
              (incrementByAmount (-3))) =
   value64 (reduceAll64 (repeat decrement (Z.abs_nat (-3)))
              (exactState initialState))).
Proof.
  assert (H0 : Z.abs (value initialState) <= exactBound)
    by (unfold exactBound; simpl; lia).
  assert (H5 : Z.abs 5 <= exactBound) by (unfold exactBound; simpl; lia).
  assert (H3 : Z.abs (-3) <= exactBound) by (unfold exactBound; simpl; lia).
  assert (H05 : Z.abs (value initialState + 5) <= exactBound)
    by (unfold exactBound; simpl; lia).
  assert (H03 : Z.abs (value initialState + -3) <= exactBound)
    by (unfold exactBound; simpl; lia).
  split.
  - repeat (split; [assumption || lia|]).
    apply (proj1 (incrementByAmount_as_repeated_steps initialState 5 H0 H5 H05)).
    lia.
  - repeat (split; [assumption || lia|]).
    apply (proj2 (incrementByAmount_as_repeated_steps initialState (-3)
                    H0 H3 H03)).
    lia.
Defined.

Lemma increment_decrement_cancel_witness :
  Z.abs (value {| value := exactBound - 2; status := "loading" |}) +
  Z.of_nat 2 <= exactBound /\
  Permutation [increment; decrement; decrement; increment]
              (repeat increment 2 ++ repeat decrement 2) /\
  value64 (reduceAll64 [increment; decrement; decrement; increment]
             (exactState {| value := exactBound - 2; status := "loading" |}))
  = Finite (exactBound - 2).
Proof.
  assert (Hrange : Z.abs (value {| value := exactBound - 2;
                                   status := "loading" |}) +
                   Z.of_nat 2 <= exactBound)
    by (unfold exactBound; simpl; lia).
  assert (Hperm : Permutation [increment; decrement; decrement; increment]
                    (repeat increment 2 ++ repeat decrement 2)).
  { simpl. apply perm_skip. symmetry.
    apply (Permutation_cons_append [decrement; decrement] increment). }
  split; [exact Hrange|]. split; [exact Hperm|].
  exact (proj2 (increment_decrement_cancel
                  {| value := exactBound - 2; status := "loading" |} 2 Hrange)
           _ Hperm).
Defined.

Lemma value_order_independent_witness :
  Permutation [increment; incrementByAmount 5] [incrementByAmount 5; increment] /\
  staysExact [increment; incrementByAmount 5] (value initialState) = true /\
  staysExact [incrementByAmount 5; increment] (value initialState) = true /\
  value64 (reduceAll64 [increment; incrementByAmount 5]
             (exactState initialState)) =
  value64 (reduceAll64 [incrementByAmount 5; increment]
             (exactState initialState)) /\
  forallb synchronous [increment; incrementByAmount 5] = true /\
  reduceAll64 [increment; incrementByAmount 5] (exactState initialState) =
  reduceAll64 [incrementByAmount 5; increment] (exactState initialState).
Proof.
  assert (Hperm : Permutation [increment; incrementByAmount 5]
                              [incrementByAmount 5; increment])
    by apply perm_swap.
  destruct (value_order_independent _ _ initialState Hperm eq_refl eq_refl)
    as [Hvalue Hstate].
  split; [exact Hperm|]. split; [reflexivity|]. split; [reflexivity|].
  split; [exact Hvalue|]. split; [reflexivity|].
  apply Hstate. reflexivity.
Defined.

Lemma synchronous_actions_undone_witness :
  forallb synchronous [increment; incrementByAmount 4; decrement] = true /\
  staysExact [increment; incrementByAmount 4; decrement]
             (value {| value := 7; status := "loading" |}) = true /\
  reduceAll64 ([increment; incrementByAmount 4; decrement] ++
               map inverse (rev [increment; incrementByAmount 4; decrement]))
              (exactState {| value := 7; status := "loading" |})
  = exactState {| value := 7; status := "loading" |}.
Proof.
  split; [reflexivity|]. split; [reflexivity|].
  apply (synchronous_actions_undone [increment; incrementByAmount 4; decrement]);
    reflexivity.
Defined.
